(** * Electric-vehicle price/range dashboard: the filter pipeline of
      [ev_analysis_app.py]

    The script is one function, [main], that works on a pandas frame.  The
    frame is embedded as a list of rows in file order, a column (Series) as
    the list of one field, a boolean mask as a list of booleans, and
    [df[mask]] as [select].  Numeric cells are exact rationals; the one
    non-number pandas can produce here, NaN (the mean or a quantile of an
    empty column), is [None] in the type [float]. *)

From Stdlib Require Import ZArith QArith Qround Qabs Qminmax Lqa Lia List Bool String.
From Stdlib Require Import Sorted Permutation.
From stdpp Require Import list.
Import ListNotations.

Local Open Scope Q_scope.
Local Open Scope string_scope.

(** ** Frames *)

(** One line of the frame after the projection and [dropna] of line 27: the
    four columns 'Model Year', 'Make', 'Electric Range' and
    'Expected Price ($1k)', none of them missing. *)
Record Row : Type := mkRow {
  modelYear : Z;
  make : string;
  electricRange : Q;
  expectedPrice : Q
}.

Definition DataFrame : Type := list Row.

(** The row of the frame once line 64 has added 'Price per Mile'. *)
Record ViewRow : Type := mkViewRow {
  source : Row;
  pricePerMile : Q
}.

Definition FilteredView : Type := list ViewRow.

(** A float that may be NaN. *)
Definition float : Type := option Q.

(** The widget values of lines 39 to 44, under the names the script gives
    them. *)
Record FilterCriteria : Type := mkCriteria {
  brand : string;
  model_year : Z;
  price_range : Q * Q;
  range_miles : Q * Q;
  show_outliers : bool;
  advanced_charts : bool
}.


(** ** Columns and masks *)

Definition col_model_year (df : DataFrame) : list Z := map modelYear df.
Definition col_make (df : DataFrame) : list string := map make df.
Definition col_electric_range (df : DataFrame) : list Q := map electricRange df.
Definition col_expected_price (df : DataFrame) : list Q := map expectedPrice df.

Definition Qlt_bool (x y : Q) : bool := negb (Qle_bool y x).

(** [series <= y] *)
Definition le_scalar (s : list Z) (y : Z) : list bool :=
  map (fun v => (v <=? y)%Z) s.

(** [series.between(lo, hi)], both ends included. *)
Definition between (s : list Q) (lo hi : Q) : list bool :=
  map (fun v => Qle_bool lo v && Qle_bool v hi) s.

(** [series == name] *)
Definition eq_scalar (s : list string) (name : string) : list bool :=
  map (fun v => String.eqb v name) s.

(** [series < b] and [series > b]; a comparison with NaN is False. *)
Definition lt_scalar (s : list Q) (b : float) : list bool :=
  map (fun v => match b with Some b' => Qlt_bool v b' | None => false end) s.

Definition gt_scalar (s : list Q) (b : float) : list bool :=
  map (fun v => match b with Some b' => Qlt_bool b' v | None => false end) s.

(** [m1 & m2], [m1 | m2] and [~m] on masks over the same index. *)
Definition mask_and (m1 m2 : list bool) : list bool := zip_with andb m1 m2.
Definition mask_or (m1 m2 : list bool) : list bool := zip_with orb m1 m2.
Definition mask_not (m : list bool) : list bool := map negb m.

(** [df[mask]]: the rows whose mask entry is True, in frame order.  Every
    mask of the script is computed from the frame it selects from, so the
    two have the same length; on a shorter mask the rows past its end are
    not selected. *)
Fixpoint select {A : Type} (df : list A) (mask : list bool) : list A :=
  match df, mask with
  | r :: df', b :: mask' => if b then r :: select df' mask' else select df' mask'
  | _, _ => []
  end.

(** ** Lines 47 to 51: the base filter *)

Definition base_filter (df : DataFrame) (c : FilterCriteria) : DataFrame :=
  let filtered_df :=
    select df
      (mask_and
         (mask_and (le_scalar (col_model_year df) (model_year c))
                   (between (col_expected_price df)
                            (fst (price_range c)) (snd (price_range c))))
         (between (col_electric_range df)
                  (fst (range_miles c)) (snd (range_miles c)))) in
  if negb (String.eqb (brand c) "All")
  then select filtered_df (eq_scalar (col_make filtered_df) (brand c))
  else filtered_df.

(** The predicate of the spec's Filter Engine, record by record. *)
Definition keeps (c : FilterCriteria) (r : Row) : bool :=
  (modelYear r <=? model_year c)%Z
  && (Qle_bool (fst (price_range c)) (expectedPrice r)
      && Qle_bool (expectedPrice r) (snd (price_range c)))
  && (Qle_bool (fst (range_miles c)) (electricRange r)
      && Qle_bool (electricRange r) (snd (range_miles c)))
  && (String.eqb (brand c) "All" || String.eqb (make r) (brand c)).

(** ** Lines 54 to 58: the IQR step *)

(** Ascending sort of a column, by insertion. *)
Fixpoint insert_sorted (x : Q) (l : list Q) : list Q :=
  match l with
  | [] => [x]
  | y :: t => if Qle_bool x y then x :: l else y :: insert_sorted x t
  end.

Definition sort_values (s : list Q) : list Q := foldr insert_sorted [] s.

(** [series.quantile(q)] with the default linear interpolation: on the
    sorted values the virtual index is [q * (n - 1)], and the result lies
    between its two neighbours in proportion to the fractional part.  The
    quantile of an empty column is NaN. *)
Definition quantile (s : list Q) (q : Q) : float :=
  match s with
  | [] => None
  | _ =>
    let sorted := sort_values s in
    let n := Z.of_nat (length s) in
    let h := q * inject_Z (n - 1) in
    let lo := Qfloor h in
    let hi := Z.min (lo + 1) (n - 1) in
    let a := nth (Z.to_nat lo) sorted 0 in
    let b := nth (Z.to_nat hi) sorted 0 in
    Some (a + (b - a) * (h - inject_Z lo))
  end.

(** Float arithmetic; NaN propagates. *)
Definition fsub (x y : float) : float :=
  match x, y with Some a, Some b => Some (a - b) | _, _ => None end.
Definition fadd (x y : float) : float :=
  match x, y with Some a, Some b => Some (a + b) | _, _ => None end.
Definition fscale (k : Q) (x : float) : float :=
  match x with Some a => Some (k * a) | None => None end.

Definition outlier_step (show : bool) (filtered_df : DataFrame) : DataFrame :=
  if negb show then
    let Q1 := quantile (col_expected_price filtered_df) (1 # 4) in
    let Q3 := quantile (col_expected_price filtered_df) (3 # 4) in
    let IQR := fsub Q3 Q1 in
    select filtered_df
      (mask_not
         (mask_or (lt_scalar (col_expected_price filtered_df)
                             (fsub Q1 (fscale (3 # 2) IQR)))
                  (gt_scalar (col_expected_price filtered_df)
                             (fadd Q3 (fscale (3 # 2) IQR)))))
  else filtered_df.

(** Lines 47 to 58 together. *)
Definition filter_engine (df : DataFrame) (c : FilterCriteria) : DataFrame :=
  outlier_step (show_outliers c) (base_filter df c).

(** ** Line 64: the derived column *)

(** [series.replace(a, b)] returns a new column. *)
Definition replace (s : list Q) (a b : Q) : list Q :=
  map (fun v => if Qeq_bool v a then b else v) s.

Definition mul_scalar (s : list Q) (k : Q) : list Q := map (fun v => v * k) s.

Definition div_series (s1 s2 : list Q) : list Q := zip_with Qdiv s1 s2.

Definition price_per_mile (filtered_df : DataFrame) : list Q :=
  div_series (mul_scalar (col_expected_price filtered_df) 1000)
             (replace (col_electric_range filtered_df) 0 1).

(** [df['Price per Mile'] = series]: the new column is appended, the
    others stay. *)
Definition set_price_per_mile (filtered_df : DataFrame) (s : list Q) : FilteredView :=
  zip_with mkViewRow filtered_df s.

Definition with_price_per_mile (filtered_df : DataFrame) : FilteredView :=
  set_price_per_mile filtered_df (price_per_mile filtered_df).

(** The Filter Engine's result as the rest of the script sees it. *)
Definition apply (df : DataFrame) (c : FilterCriteria) : FilteredView :=
  with_price_per_mile (filter_engine df c).

(** ** The spec's three-row example *)

Definition example_dataset : DataFrame :=
  [ mkRow 2020 "A" 100 40; mkRow 2021 "B" 300 35; mkRow 2022 "A" 50 90 ].

Definition example_criteria (b : string) : FilterCriteria :=
  mkCriteria b 2022 (0, 100) (0, 300) true false.


(** ** Lines 33 and 35: the summary metrics *)

Definition sum (s : list Q) : Q := foldr Qplus 0 s.

(** [series.mean()]; the mean of an empty column is NaN. *)
Definition mean (s : list Q) : float :=
  match s with
  | [] => None
  | _ => Some (sum s / inject_Z (Z.of_nat (length s)))
  end.

(** Python's [int(x)] on a float: the fraction is cut off, towards zero. *)
Definition int (x : Q) : Z := Z.quot (Qnum x) (Zpos (Qden x)).

(** The nearest integer, a tie going to the even one. *)
Definition rint (x : Q) : Z :=
  let f := Qfloor x in
  let d := x - inject_Z f in
  if Qlt_bool d (1 # 2) then f
  else if Qlt_bool (1 # 2) d then (f + 1)%Z
  else if Z.even f then f else (f + 1)%Z.

(** [round(x, 2)] on a numpy float. *)
Definition round2 (x : Q) : Q := inject_Z (rint (x * 100)) / 100.

(** What can stop a run. *)
Inductive exn : Type :=
| ValueError    (* int() of NaN *)
| ExportError.  (* the PDF engine is missing or not configured *)

(** Line 33, [int(df['Electric Range'].mean())]: [int] raises on NaN. *)
Definition average_range (df : DataFrame) : exn + Z :=
  match mean (col_electric_range df) with
  | None => inl ValueError
  | Some m => inr (int m)
  end.

(** Line 35, [round(df['Expected Price ($1k)'].mean(), 2)]: NaN stays NaN. *)
Definition average_price (df : DataFrame) : float :=
  match mean (col_expected_price df) with
  | None => None
  | Some m => Some (round2 m)
  end.

(** ** Lines 95 to 100: the exports *)

Inductive cell : Type :=
| CInt (z : Z)
| CStr (s : string)
| CNum (x : Q).

(** A serialised table: the header line and the data lines. *)
Record table : Type := mkTable {
  header : list string;
  lines : list (list cell)
}.

Definition columns : list string :=
  [ "Model Year"; "Make"; "Electric Range"; "Expected Price ($1k)"; "Price per Mile" ].

Definition cells (v : ViewRow) : list cell :=
  [ CInt (modelYear (source v)); CStr (make (source v));
    CNum (electricRange (source v)); CNum (expectedPrice (source v));
    CNum (pricePerMile v) ].

(** [filtered_df.to_csv(index=False)]: the header and one line per row, no
    index column.  The text of a cell is not modelled, its value is. *)
Definition to_csv (view : FilteredView) : table :=
  mkTable columns (map cells view).

(** ** The script

    A run shows elements on the page one after the other and stops at the
    first exception; what was shown before stays on the page.  [script A]
    is a run that has shown some elements and either raised or returned. *)

Definition script (elt A : Type) : Type := list elt * (exn + A).

Definition ret {elt A : Type} (a : A) : script elt A := ([], inr a).

Definition bind {elt A B : Type} (m : script elt A) (f : A -> script elt B)
  : script elt B :=
  match m with
  | (w, inl e) => (w, inl e)
  | (w, inr a) => let (w', r) := f a in ((w ++ w')%list, r)
  end.

Definition emit {elt : Type} (e : elt) : script elt unit := ([e], inr tt).

Definition lift {elt A : Type} (x : exn + A) : script elt A := ([], x).

Notation "x <- m ;; k" := (bind m (fun x => k))
  (at level 100, m at next level, right associativity).
Notation "m ;; k" := (bind m (fun _ => k))
  (at level 100, right associativity).

Inductive metric_value : Type :=
| MInt (z : Z)
| MFloat (x : float).

(** A chart records the frame the plotting library was handed. *)
Inductive chart : Type :=
| StripPlot (data : FilteredView)   (* x = 'Model Year', y = 'Price per Mile' *)
| Heatmap (data : FilteredView)     (* pivot of mean price by range and year *)
| Scatter (data : FilteredView).    (* range against price, coloured by make *)

Section Script.

(** The HTML text and the PDF bytes belong to pandas and to pdfkit. *)
Variables html pdf : Type.
Variable to_html : FilteredView -> html.

Inductive payload : Type :=
| CsvData (t : table)
| PdfData (b : pdf).

Inductive element : Type :=
| Text (s : string)
| Metric (label : string) (value : metric_value)
| Pyplot (fig : chart)
| PlotlyChart (fig : chart)
| DownloadButton (label : string) (data : payload) (file_name mime : string).

(** [pdfkit.from_string(html_content, False)]: the bytes, or an exception
    when the engine is missing or not configured. *)
Definition pdfkit_from_string (from_string : html -> option pdf)
           (html_content : html) : exn + pdf :=
  match from_string html_content with
  | Some b => inr b
  | None => inl ExportError
  end.

(** [main] from line 29 on: [df] is the cleaned frame of line 27 and [c]
    holds what the sidebar widgets of lines 39 to 44 return (the widgets
    and their own checks of bounds and defaults are Streamlit's).  The
    plotting calls are recorded with the frame they are given. *)
Definition main (from_string : html -> option pdf)
           (df : DataFrame) (c : FilterCriteria) : script element unit :=
  emit (Text "Electric Vehicle Price vs Range Analysis") ;;
  emit (Text "Educating users on high-price, low-range EVs for better decision-making.") ;;
  emit (Text "Key Metrics") ;;
  r <- lift (average_range df) ;;
  emit (Metric "Average Range (miles)" (MInt r)) ;;
  emit (Metric "Average Price ($1k)" (MFloat (average_price df))) ;;
  emit (Text "Filters") ;;
  let filtered_df := filter_engine df c in
  emit (Text "Visualizations") ;;
  let filtered_df := with_price_per_mile filtered_df in
  emit (Pyplot (StripPlot filtered_df)) ;;
  emit (Pyplot (Heatmap filtered_df)) ;;
  (if advanced_charts c then emit (PlotlyChart (Scatter filtered_df)) else ret tt) ;;
  emit (Text "Business Insights") ;;
  emit (Text "Business Recommendations") ;;
  emit (Text "Final Thoughts") ;;
  emit (Text "Export Data") ;;
  let csv := to_csv filtered_df in
  emit (DownloadButton "Download Filtered Data (CSV)" (CsvData csv)
                       "ev_filtered_data.csv" "text/csv") ;;
  let html_content := to_html filtered_df in
  pdf_bytes <- lift (pdfkit_from_string from_string html_content) ;;
  emit (DownloadButton "Download Insights (PDF)" (PdfData pdf_bytes)
                       "ev_insights.pdf" "application/pdf") ;;
  emit (Text "---") ;;
  emit (Text "Created by Maina Bryan, aspiring Data Scientist").

End Script.

Arguments CsvData {pdf} t.
Arguments PdfData {pdf} b.
Arguments Text {pdf} s.
Arguments Metric {pdf} label value.
Arguments Pyplot {pdf} fig.
Arguments PlotlyChart {pdf} fig.
Arguments DownloadButton {pdf} label data file_name mime.
Arguments main {html pdf} to_html from_string df c.

(** ** Definitions the statements use *)

(** The entry of the mask of line 58 for one row, before the negation. *)
Definition is_outlier (filtered_df : DataFrame) (r : Row) : bool :=
  let Q1 := quantile (col_expected_price filtered_df) (1 # 4) in
  let Q3 := quantile (col_expected_price filtered_df) (3 # 4) in
  let IQR := fsub Q3 Q1 in
  match fsub Q1 (fscale (3 # 2) IQR) with
  | Some lo => Qlt_bool (expectedPrice r) lo
  | None => false
  end
  || match fadd Q3 (fscale (3 # 2) IQR) with
     | Some hi => Qlt_bool hi (expectedPrice r)
     | None => false
     end.

Definition within_bounds (Q1 Q3 : Q) (r : Row) : bool :=
  negb (Qlt_bool (expectedPrice r) (Q1 - (3 # 2) * (Q3 - Q1))
        || Qlt_bool (Q3 + (3 # 2) * (Q3 - Q1)) (expectedPrice r)).

(** The divisor of line 64 for one row. *)
Definition divisor (r : Row) : Q :=
  if Qeq_bool (electricRange r) 0 then 1 else electricRange r.

(** The four source cells of a line of the export. *)
Definition source_cells (r : Row) : list cell :=
  [ CInt (modelYear r); CStr (make r);
    CNum (electricRange r); CNum (expectedPrice r) ].

(** [series.min()] and [series.max()]; NaN on an empty column. *)
Definition series_max_Z (s : list Z) : option Z :=
  match s with [] => None | x :: t => Some (foldr Z.max x t) end.
Definition series_min (s : list Q) : float :=
  match s with [] => None | x :: t => Some (foldr Qmin x t) end.
Definition series_max (s : list Q) : float :=
  match s with [] => None | x :: t => Some (foldr Qmax x t) end.

(** The criteria whose bounds are the frame's own extremes, with brand
    "All" and the outliers shown; there are none for an empty frame. *)
Definition widest_criteria (df : DataFrame) (advanced : bool) : option FilterCriteria :=
  match series_max_Z (col_model_year df),
        series_min (col_expected_price df), series_max (col_expected_price df),
        series_min (col_electric_range df), series_max (col_electric_range df)
  with
  | Some y, Some plo, Some phi, Some rlo, Some rhi =>
    Some (mkCriteria "All" y (plo, phi) (rlo, rhi) true advanced)
  | _, _, _, _, _ => None
  end.






(** ** Line 27: the cleaned frame *)

(** A line of the frame [read_csv] returns, seen through the four columns
    line 27 selects: a cell holds a value or is missing (NaN). *)
Record RawRow : Type := mkRawRow {
  raw_model_year : option Z;
  raw_make : option string;
  raw_electric_range : option Q;
  raw_expected_price : option Q
}.

(** The row of a line without a missing cell. *)
Definition complete (r : RawRow) : option Row :=
  match raw_model_year r, raw_make r, raw_electric_range r, raw_expected_price r with
  | Some y, Some m, Some e, Some p => Some (mkRow y m e p)
  | _, _, _, _ => None
  end.

(** [.dropna()]: the lines with a missing cell are dropped, the others
    keep their order. *)
Fixpoint dropna (raw : list RawRow) : DataFrame :=
  match raw with
  | [] => []
  | r :: raw' =>
    match complete r with
    | Some row => row :: dropna raw'
    | None => dropna raw'
    end
  end.

Definition notna (r : RawRow) : bool :=
  match complete r with Some _ => true | None => false end.

Definition to_raw (r : Row) : RawRow :=
  mkRawRow (Some (modelYear r)) (Some (make r))
           (Some (electricRange r)) (Some (expectedPrice r)).

(** ** Line 39: the brand selector, and line 71: the pivot *)

Section Keys.

Context {A : Type}.
Variable eqb : A -> A -> bool.
Variable leb : A -> A -> bool.

(** [series.unique()]: the distinct values in order of first appearance. *)
Fixpoint unique (l : list A) : list A :=
  match l with
  | [] => []
  | x :: t => x :: List.filter (fun y => negb (eqb y x)) (unique t)
  end.

Fixpoint insert_by (x : A) (l : list A) : list A :=
  match l with
  | [] => [x]
  | y :: t => if leb x y then x :: l else y :: insert_by x t
  end.

(** [sorted(values)], ascending. *)
Definition sorted (l : list A) : list A := foldr insert_by [] l.

(** Some element of the list is equal to [x]. *)
Definition has (x : A) (l : list A) : Prop := exists y, In y l /\ eqb x y = true.

(** No two elements of the list are equal. *)
Inductive distinct : list A -> Prop :=
| distinct_nil : distinct []
| distinct_cons (x : A) (l : list A) : ~ has x l -> distinct l -> distinct (x :: l).

End Keys.

(** ['All'] + sorted(df['Make'].unique().tolist()); strings compare by
    code point, which on UTF-8 text is the order of [String.leb]. *)
Definition brand_options (df : DataFrame) : list string :=
  "All" :: sorted String.leb (unique String.eqb (col_make df)).

(** [pivot_table(values='Expected Price ($1k)', index='Electric Range',
    columns='Model Year', aggfunc='mean')]: one line per distinct range
    and one column per distinct year, both ascending; a cell is the mean
    price of the rows with that range and year, NaN when there is none. *)
Definition pivot_index (view : FilteredView) : list Q :=
  sorted Qle_bool (unique Qeq_bool (map (fun v => electricRange (source v)) view)).

Definition pivot_columns (view : FilteredView) : list Z :=
  sorted Z.leb (unique Z.eqb (map (fun v => modelYear (source v)) view)).

Definition in_group (e : Q) (y : Z) (v : ViewRow) : bool :=
  Qeq_bool (electricRange (source v)) e && (modelYear (source v) =? y)%Z.

Definition pivot_cell (view : FilteredView) (e : Q) (y : Z) : float :=
  mean (map (fun v => expectedPrice (source v)) (List.filter (in_group e y) view)).

Definition pivot_table (view : FilteredView) : list (list float) :=
  map (fun e => map (fun y => pivot_cell view e y) (pivot_columns view))
      (pivot_index view).

(** Four vehicles at 40 and one at 41: both quartiles are 40. *)
Definition flat_dataset : DataFrame :=
  [ mkRow 2020 "A" 100 40; mkRow 2020 "A" 100 40; mkRow 2020 "A" 100 40;
    mkRow 2021 "A" 100 40; mkRow 2022 "A" 100 41 ].

(** A file with a line that lacks its price. *)
Definition raw_example : list RawRow :=
  [ mkRawRow (Some 2020%Z) (Some "A") (Some 100) (Some 40);
    mkRawRow (Some 2021%Z) (Some "B") (Some 300) None;
    mkRawRow (Some 2022%Z) (Some "A") (Some 50) (Some 90) ].

(** * Properties *)

(** ** Selecting by a mask computed from the frame *)

Section Select.

Context {A : Type}.

Lemma select_map (p : A -> bool) (l : list A) :
  select l (map p l) = List.filter p l.
Proof.
  induction l as [|x l IH]; simpl; [reflexivity|].
  rewrite IH. reflexivity.
Qed.

Lemma zip_with_map_same {B C D : Type} (f : B -> C -> D)
      (g : A -> B) (h : A -> C) (l : list A) :
  zip_with f (map g l) (map h l) = map (fun x => f (g x) (h x)) l.
Proof.
  induction l as [|x l IH]; simpl; [reflexivity|].
  rewrite IH. reflexivity.
Qed.

Lemma filter_filter_andb (p q : A -> bool) (l : list A) :
  List.filter q (List.filter p l) = List.filter (fun x => p x && q x) l.
Proof.
  induction l as [|x l IH]; simpl; [reflexivity|].
  destruct (p x); simpl; [destruct (q x)|]; rewrite IH; reflexivity.
Qed.

Lemma filter_sublist (p : A -> bool) (l : list A) :
  sublist (List.filter p l) l.
Proof.
  induction l as [|x l IH]; simpl.
  - constructor.
  - destruct (p x); constructor; exact IH.
Qed.

Lemma filter_all (p : A -> bool) (l : list A) :
  (forall x, In x l -> p x = true) -> List.filter p l = l.
Proof.
  induction l as [|x l IH]; simpl; intros H; [reflexivity|].
  rewrite (H x) by (left; reflexivity).
  rewrite IH; [reflexivity|]. intros y Hy. apply H. right. exact Hy.
Qed.

End Select.

Lemma Qlt_bool_iff (x y : Q) : Qlt_bool x y = true <-> x < y.
Proof.
  unfold Qlt_bool. rewrite negb_true_iff.
  split.
  - intros H. apply Qnot_le_lt. intros Hle.
    apply Qle_bool_iff in Hle. congruence.
  - intros H. destruct (Qle_bool y x) eqn:E; [|reflexivity].
    apply Qle_bool_iff in E. exfalso. apply (Qlt_not_le _ _ H E).
Qed.

(** The base filter of lines 47 to 51 is the filter by [keeps]. *)
Lemma base_filter_keeps (df : DataFrame) (c : FilterCriteria) :
  base_filter df c = List.filter (keeps c) df.
Proof.
  unfold base_filter, mask_and, le_scalar, between, eq_scalar,
    col_model_year, col_expected_price, col_electric_range, col_make.
  rewrite !map_map, !zip_with_map_same, select_map.
  rewrite select_map, filter_filter_andb.
  destruct (String.eqb (brand c) "All") eqn:E; simpl.
  - apply List.filter_ext. intros r. unfold keeps. rewrite E. simpl.
    rewrite andb_true_r. reflexivity.
  - apply List.filter_ext. intros r. unfold keeps. rewrite E. reflexivity.
Qed.

Lemma keeps_iff (c : FilterCriteria) (r : Row) :
  keeps c r = true <->
  (modelYear r <= model_year c)%Z
  /\ fst (price_range c) <= expectedPrice r <= snd (price_range c)
  /\ fst (range_miles c) <= electricRange r <= snd (range_miles c)
  /\ (brand c = "All" \/ make r = brand c).
Proof.
  unfold keeps.
  rewrite !andb_true_iff, orb_true_iff, Z.leb_le, !Qle_bool_iff, !String.eqb_eq.
  tauto.
Qed.

(** C1.  A row is in the result of the base filter exactly when it is in the
    frame, its model year is at most [model_year], its price and its range
    lie in the closed intervals [price_range] and [range_miles], and the
    brand is "All" or the row's make; the result is the frame filtered by
    that predicate.  On the three-row example with brand "A" and wide
    bounds the rows of 2020 and 2022 are left. *)
Theorem base_filter_survivors :
  (forall (df : DataFrame) (c : FilterCriteria) (r : Row),
      In r (base_filter df c) <->
      In r df
      /\ (modelYear r <= model_year c)%Z
      /\ fst (price_range c) <= expectedPrice r <= snd (price_range c)
      /\ fst (range_miles c) <= electricRange r <= snd (range_miles c)
      /\ (brand c = "All" \/ make r = brand c))
  /\ (forall (df : DataFrame) (c : FilterCriteria),
         base_filter df c = List.filter (keeps c) df)
  /\ base_filter example_dataset (example_criteria "A")
     = [ mkRow 2020 "A" 100 40; mkRow 2022 "A" 50 90 ].
Proof.
  split; [|split].
  - intros df c r. rewrite base_filter_keeps, List.filter_In, keeps_iff.
    reflexivity.
  - exact base_filter_keeps.
  - reflexivity.
Qed.

(** ** The IQR step as a filter *)

Lemma outlier_step_filter (show : bool) (filtered_df : DataFrame) :
  outlier_step show filtered_df =
  if show then filtered_df
  else List.filter (fun r => negb (is_outlier filtered_df r)) filtered_df.
Proof.
  unfold outlier_step. destruct show; simpl; [reflexivity|].
  unfold mask_not, mask_or, lt_scalar, gt_scalar, col_expected_price.
  rewrite !map_map, zip_with_map_same, map_map, select_map.
  reflexivity.
Qed.


Lemma is_outlier_iff (filtered_df : DataFrame) (r : Row) (Q1 Q3 : Q) :
  quantile (col_expected_price filtered_df) (1 # 4) = Some Q1 ->
  quantile (col_expected_price filtered_df) (3 # 4) = Some Q3 ->
  is_outlier filtered_df r = true <->
  expectedPrice r < Q1 - (3 # 2) * (Q3 - Q1)
  \/ Q3 + (3 # 2) * (Q3 - Q1) < expectedPrice r.
Proof.
  intros H1 H3. unfold is_outlier. rewrite H1, H3. simpl.
  rewrite orb_true_iff, !Qlt_bool_iff. reflexivity.
Qed.

Lemma outlier_step_sublist (show : bool) (filtered_df : DataFrame) :
  sublist (outlier_step show filtered_df) filtered_df.
Proof.
  rewrite outlier_step_filter. destruct show.
  - reflexivity.
  - apply filter_sublist.
Qed.

(** ** The derived column *)

Lemma divisor_nonzero (r : Row) : ~ divisor r == 0.
Proof.
  unfold divisor. destruct (Qeq_bool (electricRange r) 0) eqn:E.
  - intros H. discriminate H.
  - intros H. apply Qeq_bool_iff in H. congruence.
Qed.

Lemma with_price_per_mile_map (filtered_df : DataFrame) :
  with_price_per_mile filtered_df =
  map (fun r => mkViewRow r (expectedPrice r * 1000 / divisor r)) filtered_df.
Proof.
  unfold with_price_per_mile, set_price_per_mile, price_per_mile, div_series,
    mul_scalar, replace, col_expected_price, col_electric_range.
  rewrite !map_map, zip_with_map_same.
  induction filtered_df as [|r l IH]; simpl; [reflexivity|].
  rewrite IH. reflexivity.
Qed.

Lemma source_with_price_per_mile (filtered_df : DataFrame) :
  map source (with_price_per_mile filtered_df) = filtered_df.
Proof.
  rewrite with_price_per_mile_map, map_map. simpl. apply map_id.
Qed.

(** C9.  The rows the pipeline of lines 47 to 58 keeps come in the order they
    have in the frame: the result is a sublist of the frame, and so is the
    list of source rows of the view. *)
Theorem filter_engine_stable (df : DataFrame) (c : FilterCriteria) :
  sublist (filter_engine df c) df
  /\ sublist (map source (apply df c)) df.
Proof.
  assert (H : sublist (filter_engine df c) df).
  { unfold filter_engine.
    transitivity (base_filter df c).
    - apply outlier_step_sublist.
    - rewrite base_filter_keeps. apply filter_sublist. }
  split; [exact H|].
  unfold apply. rewrite source_with_price_per_mile. exact H.
Qed.



(** C10.  Adding the price-per-mile column leaves the four source columns
    as they were: the source rows of the view are the rows of the frame,
    the first four cells of every line of the CSV export are those rows'
    cells, and a row of range 0 keeps range 0 in the view and in the export
    (the 1 is used for the division only). *)
Theorem price_per_mile_frame (filtered_df : DataFrame) :
  map source (with_price_per_mile filtered_df) = filtered_df
  /\ map (firstn 4) (lines (to_csv (with_price_per_mile filtered_df)))
     = map source_cells filtered_df
  /\ (forall (i : nat) (r : Row),
         nth_error filtered_df i = Some r ->
         electricRange r == 0 ->
         exists v,
           nth_error (with_price_per_mile filtered_df) i = Some v
           /\ source v = r
           /\ pricePerMile v == expectedPrice r * 1000
           /\ nth_error (lines (to_csv (with_price_per_mile filtered_df))) i
              = Some (source_cells r ++ [CNum (pricePerMile v)])%list).
Proof.
  split; [apply source_with_price_per_mile|split].
  - unfold to_csv. simpl. rewrite with_price_per_mile_map, !map_map. simpl.
    reflexivity.
  - intros i r Hi Hz. unfold to_csv. simpl.
    rewrite with_price_per_mile_map.
    eexists. rewrite !nth_error_map, Hi. simpl.
    split; [reflexivity|]. split; [reflexivity|]. split; [|reflexivity].
    apply Qeq_bool_iff in Hz. cbn [pricePerMile]. unfold divisor.
    rewrite Hz. field.
Qed.

(** ** The IQR step *)

Lemma within_bounds_iff (Q1 Q3 : Q) (r : Row) :
  within_bounds Q1 Q3 r = true <->
  Q1 - (3 # 2) * (Q3 - Q1) <= expectedPrice r <= Q3 + (3 # 2) * (Q3 - Q1).
Proof.
  unfold within_bounds, Qlt_bool.
  rewrite negb_true_iff, orb_false_iff, !negb_false_iff, !Qle_bool_iff.
  reflexivity.
Qed.

Lemma is_outlier_within (filtered_df : DataFrame) (Q1 Q3 : Q) (r : Row) :
  quantile (col_expected_price filtered_df) (1 # 4) = Some Q1 ->
  quantile (col_expected_price filtered_df) (3 # 4) = Some Q3 ->
  negb (is_outlier filtered_df r) = within_bounds Q1 Q3 r.
Proof.
  intros H1 H3. unfold is_outlier, within_bounds. rewrite H1, H3. reflexivity.
Qed.



(** C6.  On an empty subset both quantiles are NaN, not an exception, and
    the step returns the empty subset, whatever the checkbox says. *)
Theorem outlier_step_empty (show : bool) :
  quantile (col_expected_price []) (1 # 4) = None
  /\ quantile (col_expected_price []) (3 # 4) = None
  /\ outlier_step show [] = [].
Proof.
  destruct show; repeat split; reflexivity.
Qed.




(** ** The widest criteria *)

Lemma foldr_Zmax_ge (x : Z) (t : list Z) (y : Z) :
  In y (x :: t) -> (y <= foldr Z.max x t)%Z.
Proof.
  induction t as [|z t IH]; simpl.
  - intros [->|[]]. lia.
  - intros [->|[->|H]].
    + specialize (IH (or_introl eq_refl)). lia.
    + lia.
    + specialize (IH (or_intror H)). lia.
Qed.

Lemma foldr_Qmax_ge (x : Q) (t : list Q) (y : Q) :
  In y (x :: t) -> y <= foldr Qmax x t.
Proof.
  induction t as [|z t IH]; simpl.
  - intros [->|[]]. apply Qle_refl.
  - intros [->|[->|H]].
    + eapply Qle_trans; [apply IH; left; reflexivity|apply Q.le_max_r].
    + apply Q.le_max_l.
    + eapply Qle_trans; [apply IH; right; exact H|apply Q.le_max_r].
Qed.

Lemma foldr_Qmin_le (x : Q) (t : list Q) (y : Q) :
  In y (x :: t) -> foldr Qmin x t <= y.
Proof.
  induction t as [|z t IH]; simpl.
  - intros [->|[]]. apply Qle_refl.
  - intros [->|[->|H]].
    + eapply Qle_trans; [apply Q.le_min_r|apply IH; left; reflexivity].
    + apply Q.le_min_l.
    + eapply Qle_trans; [apply Q.le_min_r|apply IH; right; exact H].
Qed.

Lemma widest_criteria_keeps (df : DataFrame) (advanced : bool) (c : FilterCriteria) :
  widest_criteria df advanced = Some c ->
  forall r, In r df -> keeps c r = true.
Proof.
  unfold widest_criteria.
  destruct df as [|r0 l]; [discriminate|].
  cbn [col_model_year col_expected_price col_electric_range map
       series_max_Z series_min series_max].
  intros [= <-] r Hr. apply keeps_iff. cbn.
  repeat split.
  - apply (foldr_Zmax_ge (modelYear r0) (map modelYear l)).
    apply (in_map modelYear (r0 :: l) r Hr).
  - apply (foldr_Qmin_le (expectedPrice r0) (map expectedPrice l)).
    apply (in_map expectedPrice (r0 :: l) r Hr).
  - apply (foldr_Qmax_ge (expectedPrice r0) (map expectedPrice l)).
    apply (in_map expectedPrice (r0 :: l) r Hr).
  - apply (foldr_Qmin_le (electricRange r0) (map electricRange l)).
    apply (in_map electricRange (r0 :: l) r Hr).
  - apply (foldr_Qmax_ge (electricRange r0) (map electricRange l)).
    apply (in_map electricRange (r0 :: l) r Hr).
  - left. reflexivity.
Qed.

(** C4.  With the widest criteria (the year ceiling at the frame's greatest
    year, the price and range intervals from the frame's least to its
    greatest value, brand "All", outliers shown) the view has as many rows
    as the cleaned frame; its source rows are the frame's rows. *)
Theorem widest_criteria_keep_all (df : DataFrame) (advanced : bool) (c : FilterCriteria) :
  widest_criteria df advanced = Some c ->
  length (apply df c) = length df
  /\ map source (apply df c) = df.
Proof.
  intros Hc.
  assert (Hs : show_outliers c = true).
  { unfold widest_criteria in Hc.
    repeat match type of Hc with
           | match ?x with _ => _ end = _ => destruct x; try discriminate Hc
           end.
    injection Hc as <-. reflexivity. }
  assert (He : filter_engine df c = df).
  { unfold filter_engine. rewrite Hs, outlier_step_filter, base_filter_keeps.
    apply filter_all. apply (widest_criteria_keeps df advanced c Hc). }
  assert (Hm : map source (apply df c) = df).
  { unfold apply. rewrite source_with_price_per_mile. exact He. }
  split; [|exact Hm].
  rewrite <- Hm at 2. rewrite length_map. reflexivity.
Qed.

Lemma widest_criteria_keep_all_witness :
  length (apply example_dataset (mkCriteria "All" 2022 (35, 90) (50, 300) true false))
  = length example_dataset
  /\ map source (apply example_dataset
                   (mkCriteria "All" 2022 (35, 90) (50, 300) true false))
     = example_dataset.
Proof.
  apply (widest_criteria_keep_all example_dataset false).
  reflexivity.
Defined.

(** ** The summary metrics *)







(** ** A run of the script *)






(** The spec's example: mean range 150, mean price 55. *)
Example example_metrics :
  average_range example_dataset = inr 150%Z
  /\ exists p, average_price example_dataset = Some p /\ p == 55.
Proof.
  split; [reflexivity|]. eexists. split; reflexivity.
Qed.



(** ** The quantile

    [sort_values] returns the column's values in ascending order, so the
    two neighbours [quantile] interpolates between are order statistics of
    the column. *)

Lemma insert_sorted_Permutation (x : Q) (l : list Q) :
  Permutation (x :: l) (insert_sorted x l).
Proof.
  induction l as [|y l IH]; simpl.
  - reflexivity.
  - destruct (Qle_bool x y).
    + reflexivity.
    + rewrite perm_swap. apply perm_skip. exact IH.
Qed.

Lemma sort_values_Permutation (s : list Q) : Permutation s (sort_values s).
Proof.
  induction s as [|x s IH]; simpl.
  - reflexivity.
  - rewrite <- insert_sorted_Permutation. apply perm_skip. exact IH.
Qed.

Lemma insert_sorted_Sorted (x : Q) (l : list Q) :
  Sorted Qle l -> Sorted Qle (insert_sorted x l).
Proof.
  induction 1 as [|y l Hs IH Hhd]; simpl.
  - repeat constructor.
  - destruct (Qle_bool x y) eqn:E.
    + apply Qle_bool_iff in E. repeat constructor; assumption.
    + assert (Hyx : y <= x).
      { destruct (Qlt_le_dec y x) as [H|H].
        - apply Qlt_le_weak. exact H.
        - apply Qle_bool_iff in H. congruence. }
      constructor; [exact IH|].
      destruct Hhd as [|z l Hyz]; simpl.
      * constructor. exact Hyx.
      * destruct (Qle_bool x z); constructor; assumption.
Qed.

Lemma sort_values_Sorted (s : list Q) : Sorted Qle (sort_values s).
Proof.
  induction s as [|x s IH]; simpl.
  - constructor.
  - apply insert_sorted_Sorted. exact IH.
Qed.

Lemma sort_values_length (s : list Q) : length (sort_values s) = length s.
Proof.
  symmetry. apply Permutation_length, sort_values_Permutation.
Qed.

(** The quartiles of the example's prices 40, 35, 90 and of the prices
    40, 40, 40, 41, 43 before and after the first pass. *)
Example example_quartiles :
  (exists q1 q3, quantile [40; 35; 90] (1 # 4) = Some q1
                 /\ quantile [40; 35; 90] (3 # 4) = Some q3
                 /\ q1 == 75 # 2 /\ q3 == 65)
  /\ (exists q1 q3, quantile [40; 40; 40; 41; 43] (1 # 4) = Some q1
                    /\ quantile [40; 40; 40; 41; 43] (3 # 4) = Some q3
                    /\ q1 == 40 /\ q3 == 41)
  /\ (exists q1 q3, quantile [40; 40; 40; 41] (1 # 4) = Some q1
                    /\ quantile [40; 40; 40; 41] (3 # 4) = Some q3
                    /\ q1 == 40 /\ q3 == 161 # 4).
Proof.
  repeat split; do 2 eexists; repeat split; reflexivity.
Qed.

(** * Further properties of the script *)

(** ** How a run ends *)

(** On an empty cleaned frame the mean range is NaN and [int] raises at
    line 33: the page holds the title, the subtitle and the 'Key Metrics'
    header, and no metric, chart or download button, whatever the widgets
    say and whether or not the PDF engine works. *)
Theorem main_empty_frame {html pdf : Type} (to_html : FilteredView -> html)
        (from_string : html -> option pdf) (c : FilterCriteria) :
  main to_html from_string [] c
  = ([ Text "Electric Vehicle Price vs Range Analysis";
       Text "Educating users on high-price, low-range EVs for better decision-making.";
       Text "Key Metrics" ],
     inl ValueError).
Proof. reflexivity. Qed.







(** ** The filter *)

Lemma outlier_step_In (show : bool) (filtered_df : DataFrame) (r : Row) :
  In r (outlier_step show filtered_df) -> In r filtered_df.
Proof.
  rewrite outlier_step_filter. destruct show; [tauto|].
  rewrite List.filter_In. tauto.
Qed.

(** Every row of the final view, after the IQR step and with the derived
    column, is a row of the frame that meets the year ceiling, both
    intervals and the brand choice. *)
Theorem view_rows_meet_criteria (df : DataFrame) (c : FilterCriteria) (v : ViewRow) :
  In v (apply df c) ->
  In (source v) df
  /\ (modelYear (source v) <= model_year c)%Z
  /\ fst (price_range c) <= expectedPrice (source v) <= snd (price_range c)
  /\ fst (range_miles c) <= electricRange (source v) <= snd (range_miles c)
  /\ (brand c = "All" \/ make (source v) = brand c).
Proof.
  intros Hv.
  assert (Hs : In (source v) (filter_engine df c)).
  { rewrite <- (source_with_price_per_mile (filter_engine df c)).
    apply in_map. exact Hv. }
  unfold filter_engine in Hs. apply outlier_step_In in Hs.
  rewrite base_filter_keeps, List.filter_In, keeps_iff in Hs. exact Hs.
Qed.

Lemma view_rows_meet_criteria_witness :
  In (mkRow 2020 "A" 100 40) example_dataset
  /\ (2020 <= 2022)%Z
  /\ 0 <= 40 <= 100
  /\ 0 <= 100 <= 300
  /\ ("A" = "All" \/ "A" = "A").
Proof.
  apply (view_rows_meet_criteria example_dataset (example_criteria "A")
                                 (mkViewRow (mkRow 2020 "A" 100 40) (40 * 1000 / 100))).
  left. reflexivity.
Defined.

(** Filtering an already filtered frame with the same widget values
    removes nothing more. *)
Theorem base_filter_idempotent (df : DataFrame) (c : FilterCriteria) :
  base_filter (base_filter df c) c = base_filter df c.
Proof.
  rewrite !base_filter_keeps, filter_filter_andb.
  apply List.filter_ext. intros r. apply andb_diag.
Qed.

(** Narrowing the widgets never brings a row back: when the year ceiling
    of [c1] is at most that of [c2], the intervals of [c1] lie inside those
    of [c2], and [c2] shows all brands or the same brand as [c1], the rows
    kept under [c1] are a sublist of the rows kept under [c2]. *)
Theorem base_filter_monotone (df : DataFrame) (c1 c2 : FilterCriteria) :
  (model_year c1 <= model_year c2)%Z ->
  fst (price_range c2) <= fst (price_range c1) ->
  snd (price_range c1) <= snd (price_range c2) ->
  fst (range_miles c2) <= fst (range_miles c1) ->
  snd (range_miles c1) <= snd (range_miles c2) ->
  brand c2 = "All" \/ brand c1 = brand c2 ->
  sublist (base_filter df c1) (base_filter df c2).
Proof.
  intros Hy Hp1 Hp2 Hr1 Hr2 Hb.
  assert (E : base_filter df c1 = List.filter (keeps c1) (base_filter df c2)).
  { rewrite !base_filter_keeps, filter_filter_andb.
    apply List.filter_ext. intros r.
    destruct (keeps c1 r) eqn:E1; [|rewrite andb_false_r; reflexivity].
    rewrite andb_true_r. symmetry. apply keeps_iff.
    apply keeps_iff in E1.
    destruct E1 as [H1 [[H2 H3] [[H4 H5] H6]]].
    split; [lia|]. split; [split; eapply Qle_trans; eassumption|].
    split; [split; eapply Qle_trans; eassumption|].
    destruct Hb as [Hb|Hb]; [left; exact Hb|].
    destruct H6 as [H6|H6]; [left|right]; congruence. }
  rewrite E. apply filter_sublist.
Qed.

Lemma base_filter_monotone_witness :
  sublist (base_filter example_dataset (mkCriteria "A" 2021 (0, 50) (50, 300) true false))
          (base_filter example_dataset (example_criteria "All")).
Proof.
  apply (base_filter_monotone example_dataset
           (mkCriteria "A" 2021 (0, 50) (50, 300) true false)
           (example_criteria "All")).
  - vm_compute. discriminate.
  - vm_compute. discriminate.
  - vm_compute. discriminate.
  - vm_compute. discriminate.
  - vm_compute. discriminate.
  - left. reflexivity.
Defined.

(** When the two quartiles coincide the IQR is 0 and both bounds are Q1:
    the step keeps exactly the rows whose price equals Q1 and removes
    every other one, however close. *)
Theorem outlier_step_zero_iqr (filtered_df : DataFrame) (Q1 Q3 : Q) (r : Row) :
  quantile (col_expected_price filtered_df) (1 # 4) = Some Q1 ->
  quantile (col_expected_price filtered_df) (3 # 4) = Some Q3 ->
  Q1 == Q3 ->
  (In r (outlier_step false filtered_df) <->
   In r filtered_df /\ expectedPrice r == Q1).
Proof.
  intros H1 H3 E. rewrite outlier_step_filter, List.filter_In.
  rewrite (is_outlier_within filtered_df Q1 Q3 r H1 H3), within_bounds_iff.
  split; intros [Hin Hb]; (split; [exact Hin|]).
  - destruct Hb as [Hlo Hhi]. apply Qle_antisym; lra.
  - split; lra.
Qed.

Lemma outlier_step_zero_iqr_witness :
  In (mkRow 2022 "A" 100 41) (outlier_step false flat_dataset) <->
  In (mkRow 2022 "A" 100 41) flat_dataset /\ 41 == 160 # 4.
Proof.
  apply (outlier_step_zero_iqr flat_dataset (160 # 4) (160 # 4)
                               (mkRow 2022 "A" 100 41)).
  - vm_compute. reflexivity.
  - vm_compute. reflexivity.
  - reflexivity.
Defined.

(** ** The quartiles *)

Lemma Sorted_nth_le (l : list Q) :
  Sorted Qle l ->
  forall i j : nat, (i <= j)%nat -> (j < length l)%nat -> nth i l 0 <= nth j l 0.
Proof.
  intros Hs. apply Sorted_StronglySorted in Hs.
  2: { intros x y z. apply Qle_trans. }
  induction Hs as [|x l Hs IH Hall]; intros i j Hij Hj; simpl in Hj; [lia|].
  destruct j as [|j].
  - assert (i = 0%nat) by lia. subst i. apply Qle_refl.
  - destruct i as [|i]; simpl.
    + rewrite List.Forall_forall in Hall. apply Hall. apply nth_In. lia.
    + apply IH; lia.
Qed.

Lemma sort_values_nth_In (s : list Q) (i : nat) :
  (i < length s)%nat -> In (nth i (sort_values s) 0) s.
Proof.
  intros Hi. apply (Permutation_in _ (Permutation_sym (sort_values_Permutation s))).
  apply nth_In. rewrite sort_values_length. exact Hi.
Qed.

Lemma Qfloor_quarter (m : Z) : Qfloor ((1 # 4) * inject_Z m) = (m / 4)%Z.
Proof.
  unfold Qfloor, Qmult, inject_Z. cbn [Qnum Qden].
  rewrite Z.mul_1_l. reflexivity.
Qed.

Lemma Qfloor_three_quarters (m : Z) : Qfloor ((3 # 4) * inject_Z m) = (3 * m / 4)%Z.
Proof.
  unfold Qfloor, Qmult, inject_Z. cbn [Qnum Qden]. reflexivity.
Qed.

(** An interpolation between two ordered values stays between them. *)
Lemma interpolation_between (a b f : Q) :
  a <= b -> 0 <= f -> f <= 1 -> a <= a + (b - a) * f <= b.
Proof.
  intros Hab H0 H1.
  assert (P1 : 0 <= (b - a) * f) by (apply Qmult_le_0_compat; lra).
  assert (P2 : 0 <= (b - a) * (1 - f)) by (apply Qmult_le_0_compat; lra).
  split; lra.
Qed.

Lemma frac_bounds (h : Q) : 0 <= h - inject_Z (Qfloor h) /\ h - inject_Z (Qfloor h) <= 1.
Proof.
  pose proof (Qfloor_le h) as H1. pose proof (Qlt_floor h) as H2.
  rewrite inject_Z_plus in H2. change (inject_Z 1) with 1 in H2.
  split; lra.
Qed.

(** For a non-empty column the quartiles exist, Q1 is at most Q3, and the
    column has a value that is at least Q1 and at most the upper bound. *)
Lemma quartiles_facts (s : list Q) :
  s <> [] ->
  exists Q1 Q3 b : Q,
    quantile s (1 # 4) = Some Q1
    /\ quantile s (3 # 4) = Some Q3
    /\ In b s
    /\ Q1 <= Q3
    /\ Q1 <= b
    /\ b <= Q3 + (3 # 2) * (Q3 - Q1).
Proof.
  intros Hne.
  assert (Hq : forall q, quantile s q =
            Some (nth (Z.to_nat (Qfloor (q * inject_Z (Z.of_nat (length s) - 1))))
                      (sort_values s) 0
                  + (nth (Z.to_nat (Z.min (Qfloor (q * inject_Z (Z.of_nat (length s) - 1)) + 1)
                                          (Z.of_nat (length s) - 1)))
                         (sort_values s) 0
                     - nth (Z.to_nat (Qfloor (q * inject_Z (Z.of_nat (length s) - 1))))
                           (sort_values s) 0)
                    * (q * inject_Z (Z.of_nat (length s) - 1)
                       - inject_Z (Qfloor (q * inject_Z (Z.of_nat (length s) - 1)))))).
  { intros q. destruct s; [congruence|reflexivity]. }
  pose proof (sort_values_Sorted s) as Hsorted.
  pose proof (sort_values_length s) as Hlen.
  set (S := sort_values s) in *.
  assert (Hin : forall i, (i < length s)%nat -> In (nth i S 0) s).
  { intros i Hi. apply sort_values_nth_In. exact Hi. }
  assert (Hmono : forall i j, (i <= j)%nat -> (j < length s)%nat ->
                              nth i S 0 <= nth j S 0).
  { intros i j Hij Hj. apply Sorted_nth_le; [exact Hsorted|exact Hij|].
    rewrite Hlen. exact Hj. }
  assert (Hpos : (0 < length s)%nat) by (destruct s; [congruence|simpl; lia]).
  eexists. eexists.
  exists (nth (Z.to_nat (Z.min (Qfloor ((1 # 4) * inject_Z (Z.of_nat (length s) - 1)) + 1)
                               (Z.of_nat (length s) - 1))) S 0).
  split; [apply Hq|]. split; [apply Hq|].
  pose proof (frac_bounds ((1 # 4) * inject_Z (Z.of_nat (length s) - 1))) as [F1 F1'].
  pose proof (frac_bounds ((3 # 4) * inject_Z (Z.of_nat (length s) - 1))) as [F3 F3'].
  rewrite Qfloor_quarter, Qfloor_three_quarters in *.
  set (m := (Z.of_nat (length s) - 1)%Z) in *.
  assert (Hm : (0 <= m)%Z) by (unfold m; lia).
  assert (Hm' : Z.to_nat m = (length s - 1)%nat) by (unfold m; lia).
  set (lo1 := (m / 4)%Z) in *. set (lo3 := (3 * m / 4)%Z) in *.
  assert (Hlo1 : (0 <= lo1 <= m)%Z).
  { unfold lo1. split; [apply Z.div_pos; lia|].
    apply Z.div_le_upper_bound; lia. }
  assert (Hlo3 : (0 <= lo3 <= m)%Z).
  { unfold lo3. split; [apply Z.div_pos; lia|].
    apply Z.div_le_upper_bound; lia. }
  set (a1 := nth (Z.to_nat lo1) S 0) in *.
  set (b1 := nth (Z.to_nat (Z.min (lo1 + 1) m)) S 0) in *.
  set (a3 := nth (Z.to_nat lo3) S 0) in *.
  set (b3 := nth (Z.to_nat (Z.min (lo3 + 1) m)) S 0) in *.
  set (f1 := (1 # 4) * inject_Z m - inject_Z lo1) in *.
  set (f3 := (3 # 4) * inject_Z m - inject_Z lo3) in *.
  assert (Hab1 : a1 <= b1) by (apply Hmono; lia).
  assert (Hab3 : a3 <= b3) by (apply Hmono; lia).
  pose proof (interpolation_between a1 b1 f1 Hab1 F1 F1') as [I1 I1'].
  pose proof (interpolation_between a3 b3 f3 Hab3 F3 F3') as [I3 I3'].
  split; [apply Hin; lia|].
  destruct (Z_lt_le_dec m 2) as [Hsmall|Hbig].
  - assert (Hcase : m = 0%Z \/ m = 1%Z) by lia.
    destruct Hcase as [E|E].
    + assert (Eb1 : b1 = a1) by (unfold b1, a1; f_equal; lia).
      assert (Ea3 : a3 = a1) by (unfold a3, a1; f_equal; lia).
      assert (Eb3 : b3 = a1) by (unfold b3, a1; f_equal; lia).
      clearbody a1 b1 a3 b3 f1 f3. subst b1 a3 b3.
      repeat split; lra.
    + assert (L1 : lo1 = 0%Z) by (unfold lo1; rewrite E; reflexivity).
      assert (L3 : lo3 = 0%Z) by (unfold lo3; rewrite E; reflexivity).
      assert (Ea3 : a3 = a1) by (unfold a3, a1; f_equal; lia).
      assert (Eb3 : b3 = b1) by (unfold b3, b1; f_equal; lia).
      assert (Ef1 : f1 == 1 # 4).
      { unfold f1. rewrite L1, E. vm_compute. reflexivity. }
      assert (Ef3 : f3 == 3 # 4).
      { unfold f3. rewrite L3, E. vm_compute. reflexivity. }
      clearbody a1 b1 a3 b3 f1 f3. subst a3 b3.
      rewrite Ef1, Ef3. repeat split; lra.
  - assert (Hidx : (Z.min (lo1 + 1) m <= lo3)%Z).
    { unfold lo1, lo3. pose proof (Z.div_mod m 4). pose proof (Z.div_mod (3 * m) 4).
      pose proof (Z.mod_pos_bound m 4). pose proof (Z.mod_pos_bound (3 * m) 4).
      lia. }
    assert (Hb1a3 : b1 <= a3) by (apply Hmono; lia).
    repeat split; lra.
Qed.



(** On a non-empty subset the first quartile is at most the third, so the
    IQR is not negative and the bounds enclose both quartiles: every row
    whose price lies between Q1 and Q3 survives the IQR step. *)
Theorem outlier_step_keeps_middle (filtered_df : DataFrame) :
  filtered_df <> [] ->
  exists Q1 Q3 : Q,
    quantile (col_expected_price filtered_df) (1 # 4) = Some Q1
    /\ quantile (col_expected_price filtered_df) (3 # 4) = Some Q3
    /\ Q1 <= Q3
    /\ forall r : Row,
        In r filtered_df ->
        Q1 <= expectedPrice r <= Q3 ->
        In r (outlier_step false filtered_df).
Proof.
  intros Hne.
  destruct (quartiles_facts (col_expected_price filtered_df))
    as [Q1 [Q3 [b [H1 [H3 [_ [H13 _]]]]]]].
  { destruct filtered_df; [congruence|discriminate]. }
  exists Q1, Q3. split; [exact H1|]. split; [exact H3|]. split; [exact H13|].
  intros r Hin [Hlo Hhi].
  rewrite outlier_step_filter. apply List.filter_In. split; [exact Hin|].
  rewrite (is_outlier_within filtered_df Q1 Q3 r H1 H3).
  apply within_bounds_iff. split; lra.
Qed.

Lemma outlier_step_keeps_middle_witness :
  exists Q1 Q3 : Q,
    quantile (col_expected_price example_dataset) (1 # 4) = Some Q1
    /\ quantile (col_expected_price example_dataset) (3 # 4) = Some Q3
    /\ Q1 <= Q3
    /\ forall r : Row,
        In r example_dataset ->
        Q1 <= expectedPrice r <= Q3 ->
        In r (outlier_step false example_dataset).
Proof.
  apply (outlier_step_keeps_middle example_dataset). discriminate.
Defined.

(** ** The derived column and the export *)





(** ** The cleaned frame *)

Lemma complete_to_raw (r : Row) : complete (to_raw r) = Some r.
Proof. destruct r. reflexivity. Qed.

Lemma complete_Some (r : RawRow) (row : Row) :
  complete r = Some row -> r = to_raw row.
Proof.
  destruct r as [[y|] [m|] [e|] [p|]]; unfold complete; simpl;
    intros H; try discriminate H.
  injection H as <-. reflexivity.
Qed.

(** [dropna] keeps exactly the lines without a missing cell, in file
    order, and drops nothing else: read back as lines, the cleaned frame is
    the file filtered by [notna], and it is as long as the file exactly
    when no line of the file has a missing cell. *)
Theorem dropna_complete_lines (raw : list RawRow) :
  map to_raw (dropna raw) = List.filter notna raw
  /\ sublist (map to_raw (dropna raw)) raw
  /\ (length (dropna raw) <= length raw)%nat
  /\ (length (dropna raw) = length raw <-> forall r, In r raw -> notna r = true).
Proof.
  assert (E : map to_raw (dropna raw) = List.filter notna raw).
  { induction raw as [|r raw IH]; simpl; [reflexivity|].
    unfold notna. destruct (complete r) as [row|] eqn:Hc; simpl.
    - rewrite IH, (complete_Some r row Hc). reflexivity.
    - exact IH. }
  assert (L : length (dropna raw) = length (List.filter notna raw)).
  { rewrite <- E, length_map. reflexivity. }
  split; [exact E|]. split; [rewrite E; apply filter_sublist|].
  split; [rewrite L; apply List.filter_length_le|].
  rewrite L. split.
  - intros H r Hr.
    clear E L. induction raw as [|a raw IH]; [destruct Hr|].
    simpl in H. pose proof (List.filter_length_le notna raw) as Hle.
    destruct (notna a) eqn:Ea; simpl in H; [|lia].
    destruct Hr as [<-|Hr]; [exact Ea|]. apply IH; [lia|exact Hr].
  - intros H. rewrite (filter_all notna raw H). reflexivity.
Qed.

(** A frame without missing cells goes through [dropna] unchanged, and
    cleaning a cleaned frame again changes nothing. *)
Theorem dropna_round_trip :
  (forall df : DataFrame, dropna (map to_raw df) = df)
  /\ (forall raw : list RawRow, dropna (map to_raw (dropna raw)) = dropna raw).
Proof.
  assert (H : forall df : DataFrame, dropna (map to_raw df) = df).
  { induction df as [|r df IH]; [reflexivity|].
    cbn [map dropna]. rewrite complete_to_raw, IH. reflexivity. }
  split; [exact H|]. intros raw. apply H.
Qed.

(** A file in which every line lacks one of the four values leaves an
    empty frame, and the run stops with [ValueError] at the first metric,
    before any chart or download button. *)
Theorem run_on_incomplete_file {html pdf : Type} (to_html : FilteredView -> html)
        (from_string : html -> option pdf) (raw : list RawRow) (c : FilterCriteria) :
  (forall r, In r raw -> notna r = false) ->
  dropna raw = []
  /\ main to_html from_string (dropna raw) c
     = ([ Text "Electric Vehicle Price vs Range Analysis";
          Text "Educating users on high-price, low-range EVs for better decision-making.";
          Text "Key Metrics" ],
        inl ValueError).
Proof.
  intros H.
  assert (E : dropna raw = []).
  { induction raw as [|r raw IH]; simpl; [reflexivity|].
    pose proof (H r (or_introl eq_refl)) as Hr. unfold notna in Hr.
    destruct (complete r); [discriminate Hr|].
    apply IH. intros r' Hr'. apply H. right. exact Hr'. }
  split; [exact E|]. rewrite E. reflexivity.
Qed.

Lemma run_on_incomplete_file_witness :
  dropna [mkRawRow (Some 2021%Z) (Some "B") (Some 300) None] = []
  /\ main (fun v : FilteredView => v) (fun _ => Some tt)
          (dropna [mkRawRow (Some 2021%Z) (Some "B") (Some 300) None])
          (example_criteria "All")
     = ([ Text "Electric Vehicle Price vs Range Analysis";
          Text "Educating users on high-price, low-range EVs for better decision-making.";
          Text "Key Metrics" ],
        inl ValueError).
Proof.
  apply (run_on_incomplete_file (fun v : FilteredView => v) (fun _ => Some tt)
           [mkRawRow (Some 2021%Z) (Some "B") (Some 300) None]
           (example_criteria "All")).
  intros r [<-|[]]. reflexivity.
Defined.

Example dropna_example :
  dropna raw_example = [ mkRow 2020 "A" 100 40; mkRow 2022 "A" 50 90 ].
Proof. reflexivity. Qed.

(** ** Distinct values in ascending order *)

Section KeysFacts.

Context {A : Type}.
Variable eqb : A -> A -> bool.
Variable leb : A -> A -> bool.
Hypothesis eqb_refl : forall x, eqb x x = true.
Hypothesis eqb_sym : forall x y, eqb x y = true -> eqb y x = true.
Hypothesis eqb_trans : forall x y z, eqb x y = true -> eqb y z = true -> eqb x z = true.
Hypothesis leb_total : forall x y, leb x y = true \/ leb y x = true.

Lemma unique_In (x : A) (l : list A) : In x (unique eqb l) -> In x l.
Proof.
  induction l as [|a l IH]; simpl; [tauto|].
  intros [->|H]; [left; reflexivity|].
  apply List.filter_In in H. right. apply IH. apply H.
Qed.

Lemma unique_has (x : A) (l : list A) : In x l -> has eqb x (unique eqb l).
Proof.
  induction l as [|a l IH]; simpl; [tauto|].
  intros [->|H].
  - exists x. split; [left; reflexivity|apply eqb_refl].
  - destruct (IH H) as [y [Hy Hxy]].
    destruct (eqb y a) eqn:E.
    + exists a. split; [left; reflexivity|]. apply (eqb_trans x y a Hxy E).
    + exists y. split; [|exact Hxy]. right. apply List.filter_In.
      split; [exact Hy|]. rewrite E. reflexivity.
Qed.

Lemma distinct_filter (f : A -> bool) (l : list A) :
  distinct eqb l -> distinct eqb (List.filter f l).
Proof.
  induction 1 as [|x l Hx Hd IH]; simpl; [constructor|].
  destruct (f x); [|exact IH].
  constructor; [|exact IH].
  intros [y [Hy Hxy]]. apply Hx. exists y. split; [|exact Hxy].
  apply List.filter_In in Hy. apply Hy.
Qed.

Lemma unique_distinct (l : list A) : distinct eqb (unique eqb l).
Proof.
  induction l as [|a l IH]; simpl; constructor.
  - intros [y [Hy Hay]]. apply List.filter_In in Hy. destruct Hy as [_ Hy].
    rewrite (eqb_sym a y Hay) in Hy. discriminate Hy.
  - apply distinct_filter. exact IH.
Qed.

Lemma insert_by_Permutation (x : A) (l : list A) :
  Permutation (x :: l) (insert_by leb x l).
Proof.
  induction l as [|y l IH]; simpl; [reflexivity|].
  destruct (leb x y); [reflexivity|].
  rewrite perm_swap. apply perm_skip. exact IH.
Qed.

Lemma sorted_Permutation (l : list A) : Permutation l (sorted leb l).
Proof.
  induction l as [|x l IH]; simpl; [reflexivity|].
  rewrite <- insert_by_Permutation. apply perm_skip. exact IH.
Qed.

Lemma sorted_In (x : A) (l : list A) : In x (sorted leb l) <-> In x l.
Proof.
  split; apply Permutation_in;
    [apply Permutation_sym|]; apply sorted_Permutation.
Qed.

Lemma insert_by_Sorted (x : A) (l : list A) :
  Sorted (fun a b => leb a b = true) l ->
  Sorted (fun a b => leb a b = true) (insert_by leb x l).
Proof.
  induction 1 as [|y l Hs IH Hhd]; simpl.
  - repeat constructor.
  - destruct (leb x y) eqn:E.
    + repeat constructor; assumption.
    + assert (Hyx : leb y x = true).
      { destruct (leb_total x y) as [H|H]; [congruence|exact H]. }
      constructor; [exact IH|].
      destruct Hhd as [|z l Hyz]; simpl.
      * constructor. exact Hyx.
      * destruct (leb x z); constructor; assumption.
Qed.

Lemma sorted_Sorted (l : list A) : Sorted (fun a b => leb a b = true) (sorted leb l).
Proof.
  induction l as [|x l IH]; simpl; [constructor|].
  apply insert_by_Sorted. exact IH.
Qed.

Lemma insert_by_distinct (x : A) (l : list A) :
  ~ has eqb x l -> distinct eqb l -> distinct eqb (insert_by leb x l).
Proof.
  intros Hx Hd. revert Hx.
  induction Hd as [|y l Hy Hd IH]; simpl; intros Hx.
  - constructor; [exact Hx|constructor].
  - destruct (leb x y).
    + constructor; [exact Hx|]. constructor; assumption.
    + constructor.
      * intros [z [Hz Hyz]].
        apply (Permutation_in _ (Permutation_sym (insert_by_Permutation x l))) in Hz.
        destruct Hz as [<-|Hz].
        -- apply Hx. exists y. split; [left; reflexivity|].
           apply eqb_sym. exact Hyz.
        -- apply Hy. exists z. split; assumption.
      * apply IH. intros [z [Hz Hxz]]. apply Hx. exists z.
        split; [right; exact Hz|exact Hxz].
Qed.

Lemma sorted_distinct (l : list A) : distinct eqb l -> distinct eqb (sorted leb l).
Proof.
  induction 1 as [|x l Hx Hd IH]; simpl; [constructor|].
  apply insert_by_distinct; [|exact IH].
  intros [z [Hz Hxz]]. apply Hx. exists z. split; [|exact Hxz].
  apply sorted_In. exact Hz.
Qed.

Lemma distinct_NoDup (l : list A) : distinct eqb l -> List.NoDup l.
Proof.
  induction 1 as [|x l Hx Hd IH]; constructor; [|exact IH].
  intros Hin. apply Hx. exists x. split; [exact Hin|apply eqb_refl].
Qed.

End KeysFacts.

Lemma Sorted_weaken {A : Type} (R1 R2 : A -> A -> Prop) (l : list A) :
  (forall x y, R1 x y -> R2 x y) -> Sorted R1 l -> Sorted R2 l.
Proof.
  intros HR. induction 1 as [|x l Hs IH Hhd]; constructor; [exact IH|].
  destruct Hhd; constructor. apply HR. assumption.
Qed.

Lemma string_eqb_sym (x y : string) : String.eqb x y = true -> String.eqb y x = true.
Proof. rewrite !String.eqb_eq. congruence. Qed.

Lemma string_eqb_trans (x y z : string) :
  String.eqb x y = true -> String.eqb y z = true -> String.eqb x z = true.
Proof. rewrite !String.eqb_eq. congruence. Qed.

Lemma Z_eqb_sym (x y : Z) : Z.eqb x y = true -> Z.eqb y x = true.
Proof. rewrite !Z.eqb_eq. congruence. Qed.

Lemma Z_eqb_trans (x y z : Z) :
  Z.eqb x y = true -> Z.eqb y z = true -> Z.eqb x z = true.
Proof. rewrite !Z.eqb_eq. congruence. Qed.

Lemma Z_leb_total (x y : Z) : Z.leb x y = true \/ Z.leb y x = true.
Proof. rewrite !Z.leb_le. lia. Qed.

Lemma Qeq_bool_symm (x y : Q) : Qeq_bool x y = true -> Qeq_bool y x = true.
Proof. rewrite !Qeq_bool_iff. intros H. symmetry. exact H. Qed.

Lemma Qeq_bool_transitive (x y z : Q) :
  Qeq_bool x y = true -> Qeq_bool y z = true -> Qeq_bool x z = true.
Proof. rewrite !Qeq_bool_iff. intros H1 H2. rewrite H1. exact H2. Qed.

Lemma Qle_bool_total (x y : Q) : Qle_bool x y = true \/ Qle_bool y x = true.
Proof.
  rewrite !Qle_bool_iff. destruct (Qlt_le_dec x y) as [H|H]; [left|right];
    [apply Qlt_le_weak|]; exact H.
Qed.

(** ** The brand selector *)

Lemma brand_options_tail_In (df : DataFrame) (b : string) :
  In b (tl (brand_options df)) <-> exists r, In r df /\ make r = b.
Proof.
  unfold brand_options. cbn [tl].
  rewrite sorted_In. unfold col_make. split.
  - intros H. apply unique_In in H. apply in_map_iff in H.
    destruct H as [r [Hr Hin]]. exists r. split; assumption.
  - intros [r [Hin Hr]].
    destruct (unique_has String.eqb String.eqb_refl string_eqb_trans b (map make df))
      as [y [Hy Hby]].
    { apply in_map_iff. exists r. split; assumption. }
    apply String.eqb_eq in Hby. subst y. exact Hy.
Qed.

(** The selector offers "All" first and then every make of the frame once,
    in ascending order; nothing else is offered. *)
Theorem brand_options_spec (df : DataFrame) :
  hd_error (brand_options df) = Some "All"
  /\ (forall b, In b (tl (brand_options df)) <-> exists r, In r df /\ make r = b)
  /\ Sorted (fun a b => String.leb a b = true) (tl (brand_options df))
  /\ List.NoDup (tl (brand_options df)).
Proof.
  split; [reflexivity|]. split; [apply brand_options_tail_In|].
  unfold brand_options. cbn [tl]. split.
  - apply sorted_Sorted. apply String.leb_total.
  - apply (distinct_NoDup String.eqb String.eqb_refl).
    apply (sorted_distinct String.eqb String.leb string_eqb_sym).
    apply (unique_distinct String.eqb string_eqb_sym).
Qed.

(** Every make on offer has vehicles: choosing an option other than "All",
    with a year ceiling and intervals that leave out no row, gives exactly
    the rows of that make, and there is at least one. *)
Theorem brand_option_selects (df : DataFrame) (c : FilterCriteria) :
  In (brand c) (brand_options df) ->
  brand c <> "All" ->
  (forall r, In r df ->
             (modelYear r <= model_year c)%Z
             /\ fst (price_range c) <= expectedPrice r <= snd (price_range c)
             /\ fst (range_miles c) <= electricRange r <= snd (range_miles c)) ->
  base_filter df c = List.filter (fun r => String.eqb (make r) (brand c)) df
  /\ base_filter df c <> [].
Proof.
  intros Hopt Hall Hwide.
  assert (E : base_filter df c = List.filter (fun r => String.eqb (make r) (brand c)) df).
  { rewrite base_filter_keeps.
    clear Hopt. induction df as [|r df IH]; simpl; [reflexivity|].
    assert (Hk : keeps c r = String.eqb (make r) (brand c)).
    { destruct (Hwide r (or_introl eq_refl)) as [H1 [[H2 H3] [H4 H5]]].
      unfold keeps.
      apply Z.leb_le in H1. apply Qle_bool_iff in H2, H3, H4, H5.
      rewrite H1, H2, H3, H4, H5. simpl.
      apply String.eqb_neq in Hall. rewrite Hall. reflexivity. }
    rewrite Hk, IH; [reflexivity|].
    intros r' Hr'. apply Hwide. right. exact Hr'. }
  split; [exact E|].
  destruct Hopt as [Hopt|Hopt]; [congruence|].
  change (In (brand c) (tl (brand_options df))) in Hopt.
  destruct (proj1 (brand_options_tail_In df (brand c)) Hopt) as [r [Hin Hr]].
  rewrite E. intros Hnil.
  assert (Hf : In r (List.filter (fun r => String.eqb (make r) (brand c)) df)).
  { apply List.filter_In. split; [exact Hin|]. apply String.eqb_eq. exact Hr. }
  rewrite Hnil in Hf. destruct Hf.
Qed.

Lemma brand_option_selects_witness :
  base_filter example_dataset (example_criteria "A")
  = List.filter (fun r => String.eqb (make r) "A") example_dataset
  /\ base_filter example_dataset (example_criteria "A") <> [].
Proof.
  apply (brand_option_selects example_dataset (example_criteria "A")).
  - right. left. reflexivity.
  - discriminate.
  - intros r [<-|[<-|[<-|[]]]]; vm_compute; intuition discriminate.
Defined.

(** ** Means *)





(** ** The pivot behind the heatmap *)

Lemma Sorted_strict_Q (l : list Q) :
  Sorted Qle l -> distinct Qeq_bool l -> Sorted Qlt l.
Proof.
  induction 1 as [|x l Hs IH Hhd]; intros Hd; [constructor|].
  inversion Hd as [|x' l' Hx Hd']; subst.
  constructor; [apply IH; exact Hd'|].
  destruct Hhd as [|y l Hxy]; constructor.
  apply Qle_lt_or_eq in Hxy. destruct Hxy as [Hlt|Heq]; [exact Hlt|].
  exfalso. apply Hx. exists y. split; [left; reflexivity|].
  apply Qeq_bool_iff. exact Heq.
Qed.

Lemma Sorted_strict_Z (l : list Z) :
  Sorted Z.le l -> List.NoDup l -> Sorted Z.lt l.
Proof.
  induction 1 as [|x l Hs IH Hhd]; intros Hd; [constructor|].
  inversion Hd as [|x' l' Hx Hd']; subst.
  constructor; [apply IH; exact Hd'|].
  destruct Hhd as [|y l Hxy]; constructor.
  assert (x <> y) by (intros ->; apply Hx; left; reflexivity). lia.
Qed.

Lemma in_group_iff (e : Q) (y : Z) (v : ViewRow) :
  in_group e y v = true <->
  electricRange (source v) == e /\ modelYear (source v) = y.
Proof.
  unfold in_group. rewrite andb_true_iff, Qeq_bool_iff, Z.eqb_eq. reflexivity.
Qed.

Lemma mean_None (s : list Q) : mean s = None <-> s = [].
Proof. destruct s; simpl; split; intros H; congruence. Qed.

Lemma pivot_cell_None (view : FilteredView) (e : Q) (y : Z) :
  pivot_cell view e y = None <->
  forall v, In v view -> ~ (electricRange (source v) == e /\ modelYear (source v) = y).
Proof.
  unfold pivot_cell. rewrite mean_None. split.
  - intros H v Hv Hg. apply in_group_iff in Hg.
    assert (Hin : In v (List.filter (in_group e y) view)).
    { apply List.filter_In. split; assumption. }
    apply (in_map (fun v => expectedPrice (source v))) in Hin.
    rewrite H in Hin. destruct Hin.
  - intros H. destruct (List.filter (in_group e y) view) as [|v l] eqn:E; [reflexivity|].
    exfalso. assert (Hin : In v (List.filter (in_group e y) view)).
    { rewrite E. left. reflexivity. }
    apply List.filter_In in Hin. destruct Hin as [Hv Hg].
    apply (H v Hv). apply in_group_iff. exact Hg.
Qed.

Lemma pivot_index_In (view : FilteredView) (e : Q) :
  In e (pivot_index view) -> exists v, In v view /\ electricRange (source v) = e.
Proof.
  unfold pivot_index. intros He. apply sorted_In, unique_In, in_map_iff in He.
  destruct He as [v [Hv Hin]]. exists v. split; assumption.
Qed.

Lemma pivot_index_covers (view : FilteredView) (v : ViewRow) :
  In v view -> exists e, In e (pivot_index view) /\ electricRange (source v) == e.
Proof.
  unfold pivot_index. intros Hv.
  destruct (unique_has Qeq_bool Qeq_bool_refl Qeq_bool_transitive
                       (electricRange (source v))
                       (map (fun v => electricRange (source v)) view))
    as [e [He Hve]].
  { apply (in_map (fun v => electricRange (source v))). exact Hv. }
  exists e. split; [apply sorted_In; exact He|].
  apply Qeq_bool_iff. exact Hve.
Qed.

Lemma pivot_columns_In (view : FilteredView) (y : Z) :
  In y (pivot_columns view) <-> exists v, In v view /\ modelYear (source v) = y.
Proof.
  unfold pivot_columns. rewrite sorted_In. split.
  - intros H. apply unique_In, in_map_iff in H.
    destruct H as [v [Hv Hin]]. exists v. split; assumption.
  - intros [v [Hin Hv]].
    destruct (unique_has Z.eqb Z.eqb_refl Z_eqb_trans y
                         (map (fun v => modelYear (source v)) view))
      as [y' [Hy' E]].
    { apply in_map_iff. exists v. split; assumption. }
    apply Z.eqb_eq in E. subst y'. exact Hy'.
Qed.

(** The index of the pivot holds the distinct ranges of the view in
    strictly ascending order, its columns the distinct model years in
    strictly ascending order; every range and every year of the view has
    its line and its column, and there is no other. *)
Theorem pivot_keys (view : FilteredView) :
  Sorted Qlt (pivot_index view)
  /\ Sorted Z.lt (pivot_columns view)
  /\ (forall e, In e (pivot_index view) ->
                exists v, In v view /\ electricRange (source v) = e)
  /\ (forall v, In v view ->
                exists e, In e (pivot_index view) /\ electricRange (source v) == e)
  /\ (forall y, In y (pivot_columns view) <->
                exists v, In v view /\ modelYear (source v) = y).
Proof.
  split; [|split; [|split; [|split]]].
  - unfold pivot_index. apply Sorted_strict_Q.
    + apply (Sorted_weaken (fun a b => Qle_bool a b = true)).
      * intros x y. apply Qle_bool_iff.
      * apply sorted_Sorted. apply Qle_bool_total.
    + apply (sorted_distinct Qeq_bool Qle_bool Qeq_bool_symm).
      apply (unique_distinct Qeq_bool Qeq_bool_symm).
  - unfold pivot_columns. apply Sorted_strict_Z.
    + apply (Sorted_weaken (fun a b => Z.leb a b = true)).
      * intros x y. apply Z.leb_le.
      * apply sorted_Sorted. apply Z_leb_total.
    + apply (distinct_NoDup Z.eqb Z.eqb_refl).
      apply (sorted_distinct Z.eqb Z.leb Z_eqb_sym).
      apply (unique_distinct Z.eqb Z_eqb_sym).
  - apply pivot_index_In.
  - apply pivot_index_covers.
  - apply pivot_columns_In.
Qed.



(** No line and no column of the pivot is blank throughout: every range of
    the index has a cell that is not NaN, and so has every year of the
    columns. *)
Theorem pivot_no_blank_line (view : FilteredView) :
  (forall e, In e (pivot_index view) ->
             exists y, In y (pivot_columns view) /\ pivot_cell view e y <> None)
  /\ (forall y, In y (pivot_columns view) ->
                exists e, In e (pivot_index view) /\ pivot_cell view e y <> None).
Proof.
  pose proof (pivot_index_In view) as Hidx.
  pose proof (pivot_index_covers view) as Hcov.
  pose proof (pivot_columns_In view) as Hcol.
  split.
  - intros e He. destruct (Hidx e He) as [v [Hv Hr]].
    exists (modelYear (source v)). split.
    + apply Hcol. exists v. split; [exact Hv|reflexivity].
    + intros Hnone. apply (proj1 (pivot_cell_None view e _) Hnone v Hv).
      split; [rewrite Hr; reflexivity|reflexivity].
  - intros y Hy. apply Hcol in Hy. destruct Hy as [v [Hv Hyv]].
    destruct (Hcov v Hv) as [e [He Hve]].
    exists e. split; [exact He|].
    intros Hnone. apply (proj1 (pivot_cell_None view e y) Hnone v Hv).
    split; assumption.
Qed.

(** The pivot of the example view: three ranges, three years, three
    cells filled. *)
Example pivot_example :
  pivot_index (apply example_dataset (example_criteria "All")) = [50; 100; 300]
  /\ pivot_columns (apply example_dataset (example_criteria "All")) = [2020; 2021; 2022]%Z
  /\ pivot_table (apply example_dataset (example_criteria "All"))
     = [ [None; None; Some (90 / 1)];
         [Some (40 / 1); None; None];
         [None; Some (35 / 1); None] ].
Proof. repeat split; reflexivity. Qed.

(** ** Quantiles stay inside the data *)

Lemma quantile_unfold (s : list Q) (q : Q) :
  s <> [] ->
  quantile s q =
  Some (nth (Z.to_nat (Qfloor (q * inject_Z (Z.of_nat (length s) - 1))))
            (sort_values s) 0
        + (nth (Z.to_nat (Z.min (Qfloor (q * inject_Z (Z.of_nat (length s) - 1)) + 1)
                                (Z.of_nat (length s) - 1)))
               (sort_values s) 0
           - nth (Z.to_nat (Qfloor (q * inject_Z (Z.of_nat (length s) - 1))))
                 (sort_values s) 0)
          * (q * inject_Z (Z.of_nat (length s) - 1)
             - inject_Z (Qfloor (q * inject_Z (Z.of_nat (length s) - 1))))).
Proof. destruct s; [congruence|reflexivity]. Qed.

(** For a level between 0 and 1 the quantile of a non-empty column lies
    between the least and the greatest value of the column. *)
Theorem quantile_within_extremes (s : list Q) (q : Q) :
  s <> [] ->
  0 <= q <= 1 ->
  exists x lo hi : Q,
    quantile s q = Some x
    /\ series_min s = Some lo
    /\ series_max s = Some hi
    /\ lo <= x <= hi.
Proof.
  intros Hne [Hq0 Hq1].
  assert (Hpos : (0 < length s)%nat) by (destruct s; [congruence|simpl; lia]).
  assert (Hext : exists lo hi, series_min s = Some lo /\ series_max s = Some hi
                               /\ forall y, In y s -> lo <= y <= hi).
  { destruct s as [|x0 t]; [congruence|].
    exists (foldr Qmin x0 t), (foldr Qmax x0 t).
    split; [reflexivity|]. split; [reflexivity|].
    intros y Hy. split; [apply foldr_Qmin_le|apply foldr_Qmax_ge]; exact Hy. }
  destruct Hext as [lo [hi [Hlo [Hhi Hb]]]].
  eexists. exists lo, hi.
  split; [apply quantile_unfold; exact Hne|]. split; [exact Hlo|]. split; [exact Hhi|].
  set (m := (Z.of_nat (length s) - 1)%Z).
  set (h := q * inject_Z m).
  assert (Hm : 0 <= inject_Z m).
  { change 0 with (inject_Z 0). rewrite <- Zle_Qle. unfold m. lia. }
  assert (Hh0 : 0 <= h) by (apply Qmult_le_0_compat; assumption).
  assert (Hh1 : h <= inject_Z m).
  { unfold h. assert (P : 0 <= (1 - q) * inject_Z m)
      by (apply Qmult_le_0_compat; [lra|exact Hm]). lra. }
  assert (Hf0 : (0 <= Qfloor h)%Z).
  { rewrite <- (Qfloor_Z 0). apply Qfloor_resp_le. exact Hh0. }
  assert (Hf1 : (Qfloor h <= m)%Z).
  { rewrite <- (Qfloor_Z m). apply Qfloor_resp_le. exact Hh1. }
  pose proof (frac_bounds h) as [F0 F1].
  set (a := nth (Z.to_nat (Qfloor h)) (sort_values s) 0).
  set (b := nth (Z.to_nat (Z.min (Qfloor h + 1) m)) (sort_values s) 0).
  assert (Hab : a <= b).
  { apply Sorted_nth_le; [apply sort_values_Sorted|lia|].
    rewrite sort_values_length. unfold m. lia. }
  assert (Ha : lo <= a <= hi).
  { apply Hb. apply sort_values_nth_In. unfold m in Hf1. lia. }
  assert (Hb' : lo <= b <= hi).
  { apply Hb. apply sort_values_nth_In. unfold m. lia. }
  pose proof (interpolation_between a b (h - inject_Z (Qfloor h)) Hab F0 F1) as [I1 I2].
  split; lra.
Qed.

Lemma quantile_within_extremes_witness :
  exists x lo hi : Q,
    quantile [40; 35; 90] (1 # 4) = Some x
    /\ series_min [40; 35; 90] = Some lo
    /\ series_max [40; 35; 90] = Some hi
    /\ lo <= x <= hi.
Proof.
  apply (quantile_within_extremes [40; 35; 90] (1 # 4)).
  - discriminate.
  - split; discriminate.
Defined.
